(** * The workflow stage controller of [WorkflowPage.tsx]

    A shallow embedding of the state and the event handlers of the React
    component [WorkflowPage] (frontend/src/pages/WorkflowPage.tsx), and the
    properties of stage sequencing, navigation gating and payload storage
    that hold (or fail) on it.

    Modelling conventions.
    - A JavaScript number that occurs in the component is an integer or
      [NaN] ([parseInt] yields nothing else on route segments of ordinary
      length); integers are kept exact in [Z].  The code computes with
      binary64 numbers, so the model and the code agree on the integers of
      magnitude at most [2^53] ([JS.safe]); beyond that the code rounds
      ([9007199254740996 - 1] is [9007199254740996]) and prints in another
      way.  A statement that depends on [currentStage - 1], on
      [String(currentStage)] or on [parseInt] at an arbitrary stage
      therefore carries that bound as a hypothesis.
    - A string is a sequence of code units below 256.
    - [stageData] is a JavaScript object used as a map from property names
      to values: a [gmap string jsval]; a number used as a computed key is
      converted with [String(n)].
    - An event handler of a function component reads the state of the
      render it was created in and calls setters and outside services.  It
      is embedded as a function from that snapshot to the list of effects it
      issues, in program order; [run] applies the setters of such a list to
      the state. *)

From Stdlib Require Import Ascii.
From stdpp Require Import base numbers list strings gmap pretty.

Open Scope Z_scope.

(** ** JavaScript numbers and values *)

Module JS.

Inductive num :=
  | NaN
  | Int (z : Z).

#[global] Instance num_eq_dec : EqDecision num.
Proof. solve_decision. Defined.

(** [a < b], [a > b]: false as soon as one side is [NaN]. *)
Definition lt (a b : num) : bool :=
  match a, b with
  | Int x, Int y => bool_decide (x < y)
  | _, _ => false
  end.

Definition gt (a b : num) : bool := lt b a.

(** [a + b] and [a - b], exact: the result of the code whenever it is of
    magnitude at most [2^53] (see [safe]). *)
Definition add (a b : num) : num :=
  match a, b with
  | Int x, Int y => Int (x + y)
  | _, _ => NaN
  end.

Definition sub (a b : num) : num :=
  match a, b with
  | Int x, Int y => Int (x - y)
  | _, _ => NaN
  end.

(** [a === b] on numbers: [NaN] is not equal to itself. *)
Definition strict_eq (a b : num) : bool :=
  match a, b with
  | Int x, Int y => bool_decide (x = y)
  | _, _ => false
  end.

(** SameValueZero, the comparison of [Array.prototype.includes]:
    [NaN] equals itself. *)
Definition same_value_zero (a b : num) : bool := bool_decide (a = b).

(** [l.includes(x)] *)
Definition includes (l : list num) (x : num) : bool :=
  existsb (same_value_zero x) l.

(** [String(n)], as used for a computed property key and in a template
    literal: the decimal numeral.  This is the text the code produces for
    every integer of magnitude at most [2^53]; a larger number is printed by
    the code with its shortest round-trip digits, and from [1e21] on in
    exponent notation, which is not modelled.  Different numbers have
    different texts in both. *)
Definition to_string (n : num) : string :=
  match n with
  | NaN => "NaN"
  | Int z => pretty z
  end.

(** The values a stage component may hand to [onChange] ([data: any]). *)
#[warnings="-register-all"]
Inductive jsval :=
  | VUndefined
  | VNull
  | VBool (b : bool)
  | VNum (n : num)
  | VStr (s : string)
  | VObj (fields : gmap string jsval).

(** ToBoolean *)
Definition truthy (v : jsval) : bool :=
  match v with
  | VUndefined | VNull => false
  | VBool b => b
  | VNum NaN => false
  | VNum (Int z) => negb (bool_decide (z = 0))
  | VStr s => negb (bool_decide (s = ""))
  | VObj _ => true
  end.

(** [o.k] on an object used as a record; [undefined] when the property is
    absent. *)
Definition prop (o : gmap string jsval) (k : string) : jsval :=
  default VUndefined (o !! k).

(** [v?.k]: [undefined] on [undefined] and [null]; the primitive values
    have no own property [k]. *)
Definition opt_prop (v : jsval) (k : string) : jsval :=
  match v with
  | VObj o => prop o k
  | _ => VUndefined
  end.

(** String(v) for the values interpolated into a URL. *)
Definition val_to_string (v : jsval) : string :=
  match v with
  | VUndefined => "undefined"
  | VNull => "null"
  | VBool true => "true"
  | VBool false => "false"
  | VNum n => to_string n
  | VStr s => s
  | VObj _ => "[object Object]"
  end.

(** *** [parseInt(s)] without a radix

    Leading white space is skipped, a sign is read, a [0x]/[0X] prefix
    selects radix 16 (otherwise 10), and the longest prefix of digits is the
    value; with no digit the result is [NaN].  The value is kept exact,
    which is the result of the code when it is of magnitude at most [2^53];
    the code rounds a larger value to the nearest binary64 number, and to
    [Infinity] from [2^1024] on. *)

(** White space among the code units below 256: tab to carriage return,
    space and the no-break space. *)
Definition is_ws (a : ascii) : bool :=
  let n := nat_of_ascii a in
  bool_decide (n = 32%nat) || bool_decide (9 ≤ n ≤ 13)%nat
  || bool_decide (n = 160%nat).

Fixpoint skip_ws (s : string) : string :=
  match s with
  | String a s' => if is_ws a then skip_ws s' else s
  | EmptyString => s
  end.

Definition digit_val (radix : Z) (a : ascii) : option Z :=
  let n := Z.of_nat (nat_of_ascii a) in
  let d :=
    if bool_decide (48 ≤ n ≤ 57) then Some (n - 48)
    else if bool_decide (97 ≤ n ≤ 122) then Some (n - 87)
    else if bool_decide (65 ≤ n ≤ 90) then Some (n - 55)
    else None in
  match d with
  | Some v => if bool_decide (v < radix) then Some v else None
  | None => None
  end.

Fixpoint parse_digits (radix : Z) (s : string) (acc : option Z) : option Z :=
  match s with
  | String a s' =>
      match digit_val radix a with
      | Some d => parse_digits radix s' (Some (default 0 acc * radix + d))
      | None => acc
      end
  | EmptyString => acc
  end.

Definition parseInt (s : string) : num :=
  let s := skip_ws s in
  let '(neg, s) :=
    match s with
    | String "-"%char s' => (true, s')
    | String "+"%char s' => (false, s')
    | _ => (false, s)
    end in
  let '(radix, s) :=
    match s with
    | String "0"%char (String "x"%char s') => (16, s')
    | String "0"%char (String "X"%char s') => (16, s')
    | _ => (10, s)
    end in
  match parse_digits radix s None with
  | Some v => Int (if neg then - v else v)
  | None => NaN
  end.

(** [2^53]: up to this magnitude every integer is a binary64 number, and
    [+ 1], [- 1], [String] and [parseInt] are exact on it. *)
Definition safe_bound : Z := 9007199254740992.

(** The numbers on which the model's arithmetic and printing are those of
    the code. *)
Definition safe (n : num) : Prop :=
  match n with
  | NaN => True
  | Int z => - safe_bound ≤ z ≤ safe_bound
  end.

End JS.

Import JS.

(** ** The component state *)

(** [const stages = [...]]: the seven stages, by id and name (the React
    component of each stage is presentation only). *)
Definition stages : list (Z * string) :=
  [ (1, "Raw Data Upload");
    (2, "Data Cleansing");
    (3, "Analysis & Discovery");
    (4, "Statistics & Weights");
    (5, "Propose Reports");
    (6, "User Confirmation");
    (7, "Final Report Generation") ].

(** [l.length] as a number. *)
Definition len {A} (l : list A) : num := Int (Z.of_nat (length l)).

(** The [useState] cells of [WorkflowPage]. *)
Record WorkflowState := mkState {
  currentStage : num;
  completedStages : list num;
  stageData : gmap string jsval;
  loading : bool;
  showHelp : bool;
  showChat : bool;
  isProcessing : bool;
  validationErrors : list string;
  confirmDialog : bool
}.

(** [stage || '1']: the route parameter, or ['1'] when it is missing or
    empty. *)
Definition stage_or_default (stage : option string) : string :=
  match stage with
  | Some s => if bool_decide (s = "") then "1" else s
  | None => "1"
  end.

(** The state of the first render, from the [:stage] route parameter. *)
Definition initialState (stage : option string) : WorkflowState :=
  {| currentStage := parseInt (stage_or_default stage);
     completedStages := [];
     stageData := ∅;
     loading := false;
     showHelp := false;
     showChat := false;
     isProcessing := false;
     validationErrors := [];
     confirmDialog := false |}.

(** ** Effects of a handler *)

Inductive toast_kind := Success | Error.

Inductive effect :=
  | SetCurrentStage (n : num)
  | SetCompletedStages (l : list num)
  | SetStageData (d : gmap string jsval)
  | SetLoading (b : bool)
  | SetIsProcessing (b : bool)
  | SetValidationErrors (e : list string)
  | SetConfirmDialog (b : bool)
  | Toast (k : toast_kind) (msg : string)
  | Navigate (url : string) (replace : bool)
  | Timer (ms : Z)
  | ConsoleLog (msg : string) (d : gmap string jsval).

(** How the promise of a simulated API call settles.  In the source the
    promise is [new Promise(resolve => setTimeout(resolve, ms))], which
    resolves; the handlers are nevertheless written with [try]/[catch], and
    the two other outcomes exercise those paths. *)
Inductive settle := Resolved | Rejected | Pending.

(** One setter call (or outside effect) applied to the state. *)
Definition apply (e : effect) (st : WorkflowState) : WorkflowState :=
  match e with
  | SetCurrentStage n =>
      mkState n (completedStages st) (stageData st) (loading st) (showHelp st)
        (showChat st) (isProcessing st) (validationErrors st) (confirmDialog st)
  | SetCompletedStages l =>
      mkState (currentStage st) l (stageData st) (loading st) (showHelp st)
        (showChat st) (isProcessing st) (validationErrors st) (confirmDialog st)
  | SetStageData d =>
      mkState (currentStage st) (completedStages st) d (loading st) (showHelp st)
        (showChat st) (isProcessing st) (validationErrors st) (confirmDialog st)
  | SetLoading b =>
      mkState (currentStage st) (completedStages st) (stageData st) b (showHelp st)
        (showChat st) (isProcessing st) (validationErrors st) (confirmDialog st)
  | SetIsProcessing b =>
      mkState (currentStage st) (completedStages st) (stageData st) (loading st)
        (showHelp st) (showChat st) b (validationErrors st) (confirmDialog st)
  | SetValidationErrors e =>
      mkState (currentStage st) (completedStages st) (stageData st) (loading st)
        (showHelp st) (showChat st) (isProcessing st) e (confirmDialog st)
  | SetConfirmDialog b =>
      mkState (currentStage st) (completedStages st) (stageData st) (loading st)
        (showHelp st) (showChat st) (isProcessing st) (validationErrors st) b
  | Toast _ _ | Navigate _ _ | Timer _ | ConsoleLog _ _ => st
  end.

(** The state of the next render after the effects [es], issued in order. *)
Definition run (es : list effect) (st : WorkflowState) : WorkflowState :=
  foldl (λ s e, apply e s) st es.

(** ** The handlers *)

(** [validateStage]: the errors it collects, and its result
    [errors.length === 0]. *)
Definition stage_errors (st : WorkflowState) : list string :=
  if strict_eq (currentStage st) (Int 1) then
    if negb (truthy (prop (stageData st) "fileUploaded"))
    then ["Please upload a file before proceeding"] else []
  else if strict_eq (currentStage st) (Int 2) then
    if negb (truthy (prop (stageData st) "cleaningComplete"))
    then ["Please complete data cleaning before proceeding"] else []
  else if strict_eq (currentStage st) (Int 6) then
    if negb (truthy (prop (stageData st) "userConfirmed"))
    then ["Please confirm your selections before proceeding"] else []
  else [].

Definition validateStage (st : WorkflowState) : list effect * bool :=
  let errors := stage_errors st in
  ([SetValidationErrors errors], bool_decide (length errors = 0%nat)).

(** [saveStageData]: the simulated call, then the log line. *)
Definition saveStageData (o : settle) (st : WorkflowState) : list effect :=
  Timer 1000 ::
  match o with
  | Resolved => [ConsoleLog "Saving stage data:" (stageData st)]
  | Rejected | Pending => []
  end.

(** [handleNext].  The call of [validateStage] is commented out in the
    source ("Skip validation for now to allow testing"), so none is made
    here.  What follows [await saveStageData()] runs only once the promise
    has resolved; a rejection goes to [catch] and then [finally]; a promise
    that never settles leaves the handler suspended. *)
Definition handleNext (o : settle) (st : WorkflowState) : list effect :=
  [SetIsProcessing true] ++
  saveStageData o st ++
  match o with
  | Resolved =>
      [SetCompletedStages (completedStages st ++ [currentStage st])] ++
      (if lt (currentStage st) (len stages)
       then [SetCurrentStage (add (currentStage st) (Int 1));
             Toast Success ("Stage " +:+ to_string (currentStage st) +:+ " completed!")]
       else []) ++
      [SetIsProcessing false]
  | Rejected =>
      [Toast Error "Failed to save progress"; SetIsProcessing false]
  | Pending => []
  end.

(** [handleBack] *)
Definition handleBack (st : WorkflowState) : list effect :=
  if gt (currentStage st) (Int 1)
  then [SetCurrentStage (sub (currentStage st) (Int 1))]
  else [].

(** The condition of [handleStageClick]:
    [completedStages.includes(stageNumber) ||
     stageNumber === completedStages.length + 1]. *)
Definition clickAllowed (st : WorkflowState) (stageNumber : num) : bool :=
  includes (completedStages st) stageNumber
  || strict_eq stageNumber (add (len (completedStages st)) (Int 1)).

(** [handleStageClick] *)
Definition handleStageClick (stageNumber : num) (st : WorkflowState) : list effect :=
  if clickAllowed st stageNumber
  then [SetCurrentStage stageNumber]
  else [Toast Error "Complete previous stages first"].

(** [handleStageDataChange] *)
Definition handleStageDataChange (data : jsval) (st : WorkflowState) : list effect :=
  [SetStageData (<[to_string (currentStage st) := data]> (stageData st))] ++
  (if strict_eq (currentStage st) (Int 1) && truthy (opt_prop data "document_id")
   then [Navigate ("/workflow/" +:+ val_to_string (opt_prop data "document_id") +:+ "/2") true]
   else []).

(** [loadWorkflowData], run by the effect on [documentId]. *)
Definition loadWorkflowData (o : settle) (documentId : string) : list effect :=
  [SetLoading true; Timer 500] ++
  match o with
  | Resolved =>
      (if bool_decide (documentId = "demo")
       then [SetCompletedStages [Int 1; Int 2]; SetCurrentStage (Int 3)]
       else []) ++
      [SetLoading false]
  | Rejected => [Toast Error "Failed to load workflow data"; SetLoading false]
  | Pending => []
  end.

(** The "Complete Workflow" button shown at the last stage, and the
    "Complete" button of the dialog it opens. *)
Definition openConfirmDialog : list effect := [SetConfirmDialog true].

Definition completeWorkflow : list effect :=
  [Toast Success "Workflow completed successfully!"; Navigate "/" false].

(** The button rendered on the right: "Next Stage" ([handleNext]) while
    [currentStage < stages.length], "Complete Workflow" otherwise. *)
Definition nextButton (o : settle) (st : WorkflowState) : list effect :=
  if lt (currentStage st) (len stages) then handleNext o st else openConfirmDialog.

(** ** Sequences of controller operations *)

Inductive op :=
  | Next (o : settle)
  | Previous
  | Click (stageNumber : num)
  | Change (data : jsval)
  | Reload (o : settle) (documentId : string).

Definition handler (a : op) (st : WorkflowState) : list effect :=
  match a with
  | Next o => handleNext o st
  | Previous => handleBack st
  | Click n => handleStageClick n st
  | Change d => handleStageDataChange d st
  | Reload o doc => loadWorkflowData o doc
  end.

(** The state after a handler has run on the state it was rendered with.
    A handler runs to its end before the next one starts: while
    [handleNext] awaits the save, the backdrop opened by [isProcessing]
    covers the page. *)
Definition after (h : WorkflowState → list effect) (st : WorkflowState) : WorkflowState :=
  run (h st) st.

Definition step (st : WorkflowState) (a : op) : WorkflowState :=
  after (handler a) st.

Definition steps (ops : list op) (st : WorkflowState) : WorkflowState :=
  foldl step st ops.

(** ** The navigation rule in the words of the specification *)

(** [max(completedStages ∪ {0})] *)
Definition max_completed (completed : list num) : Z :=
  foldr (λ x m, match x with Int z => Z.max z m | NaN => m end) 0 completed.

(** [canEnter]: the target is a completed stage, or the stage right after
    the furthest completed one. *)
Definition canEnter_spec (completed : list num) (target : num) : bool :=
  bool_decide (target ∈ completed)
  || strict_eq target (Int (max_completed completed + 1)).

(** ** Predicates on states and operations *)

(** A stage number between 1 and 7. *)
Definition in_range (n : num) : Prop :=
  match n with
  | Int z => 1 ≤ z ≤ 7
  | NaN => False
  end.

(** [x] is an integer stage between 1 and the integer [bound]. *)
Definition upto (bound x : num) : Prop :=
  match x, bound with
  | Int z, Int c => 1 ≤ z ≤ c
  | _, _ => False
  end.

(** Every completed stage lies in [{1, ..., currentStage}]. *)
Definition completed_upto_current (st : WorkflowState) : Prop :=
  Forall (upto (currentStage st)) (completedStages st).

(** The current stage is an integer from 1 on, and the completed stages
    lie between 1 and it. *)
Definition ahead_of_completed (st : WorkflowState) : Prop :=
  upto (currentStage st) (currentStage st) ∧ completed_upto_current st.

(** The current stage and every completed stage lie between 1 and 7. *)
Definition stages_in_range (st : WorkflowState) : Prop :=
  in_range (currentStage st) ∧ Forall in_range (completedStages st).

(** The first [k] stages, completed in order and once each. *)
Definition first_stages (k : nat) : list num :=
  (λ i, Int (Z.of_nat i)) <$> seq 1 k.

(** The stage ids the pipeline passes to [onStageClick]: those of its own
    seven-entry stage list. *)
Definition pipeline_op (a : op) : Prop :=
  match a with
  | Click n => in_range n
  | _ => True
  end.

(** Operations that only move forward or store data. *)
Definition forward_op (a : op) : bool :=
  match a with
  | Next _ | Change _ | Reload _ _ => true
  | Previous | Click _ => false
  end.



(** ** Sample states *)

(** A new workflow: no route parameter. *)
Definition fresh : WorkflowState := initialState None.

(** The state loaded for the document id ["demo"]. *)
Definition demo : WorkflowState :=
  after (λ _, loadWorkflowData Resolved "demo") (initialState None).

(** Stages 1 to 4 completed one after the other. *)
Definition four_done : WorkflowState :=
  steps [Next Resolved; Next Resolved; Next Resolved; Next Resolved] fresh.

(** Stage 1 completed, revisited and completed again. *)
Definition twice_one : WorkflowState :=
  steps [Next Resolved; Previous; Next Resolved] fresh.

(** Stages 1 to 6 completed. *)
Definition six_done : WorkflowState :=
  steps (replicate 6 (Next Resolved)) fresh.

(** ** The rest of the page: effects on mount, rendering, buttons *)

(** The effect on [currentStage] ("Update URL when stage changes"):
    [if (documentId && documentId !== 'new') navigate(`/workflow/${documentId}/${currentStage}`, { replace: true })]. *)
Definition syncUrl (documentId : option string) (st : WorkflowState) : list effect :=
  match documentId with
  | Some doc =>
      if negb (bool_decide (doc = "")) && negb (bool_decide (doc = "new"))
      then [Navigate ("/workflow/" +:+ doc +:+ "/" +:+ to_string (currentStage st)) true]
      else []
  | None => []
  end.

(** [stages[i]] for a number [i]: the entry at an integer index within the
    array, [undefined] for any other number. *)
Definition stages_at (i : num) : option (Z * string) :=
  match i with
  | Int z => if bool_decide (0 ≤ z) then stages !! Z.to_nat z else None
  | NaN => None
  end.

(** [stages[currentStage - 1]], whose [?.component] is the stage view and
    whose [?.name] is shown in the breadcrumb and the help dialog. *)
Definition currentStageEntry (st : WorkflowState) : option (Z * string) :=
  stages_at (sub (currentStage st) (Int 1)).

(** [data={stageData[currentStage]}]: the payload handed to the stage
    view. *)
Definition stageProps (st : WorkflowState) : jsval :=
  prop (stageData st) (to_string (currentStage st)).

(** The three navigation buttons under the stage view; the one on the right
    is "Next Stage" or "Complete Workflow" ([nextButton]). *)
Inductive button := PreviousButton | SaveButton | RightButton.

(** The [disabled] attribute of each button. *)
Definition disabled (b : button) (st : WorkflowState) : bool :=
  match b with
  | PreviousButton => strict_eq (currentStage st) (Int 1) || isProcessing st
  | SaveButton => isProcessing st
  | RightButton => isProcessing st
  end.

(** The [onClick] attribute of each button. *)
Definition onClick (o : settle) (b : button) (st : WorkflowState) : list effect :=
  match b with
  | PreviousButton => handleBack st
  | SaveButton => saveStageData o st
  | RightButton => nextButton o st
  end.

(** A click on a button: nothing happens on a disabled one. *)
Definition press (o : settle) (b : button) (st : WorkflowState) : WorkflowState :=
  if disabled b st then st else after (onClick o b) st.

(** What can happen to the page: a button is pressed, a stage of the
    pipeline is clicked, the stage view reports a payload, or the workflow
    data of a document is loaded. *)
Inductive event :=
  | Press (o : settle) (b : button)
  | PipelineClick (stageNumber : num)
  | StageChange (data : jsval)
  | Loaded (o : settle) (documentId : string).

Definition react (st : WorkflowState) (ev : event) : WorkflowState :=
  match ev with
  | Press o b => press o b st
  | PipelineClick n => after (handleStageClick n) st
  | StageChange d => after (handleStageDataChange d) st
  | Loaded o doc => after (λ _, loadWorkflowData o doc) st
  end.

Definition reacts (evs : list event) (st : WorkflowState) : WorkflowState :=
  foldl react st evs.

(** Classifiers of operations, for statements about sequences. *)
Definition is_reload (a : op) : bool :=
  match a with Reload _ _ => true | _ => false end.

Definition is_change (a : op) : bool :=
  match a with Change _ => true | _ => false end.

Definition is_resolved_next (a : op) : bool :=
  match a with Next Resolved => true | _ => false end.

(** The three top-level flags read by [validateStage]. *)
Definition validation_flags : list string :=
  ["fileUploaded"; "cleaningComplete"; "userConfirmed"].

(** The stages at which [validateStage] has a check. *)
Definition checked_stages : list num := [Int 1; Int 2; Int 6].

(** The first character of a decimal numeral, of a minus sign or of
    ["NaN"]. *)
Definition numeral_head (c : ascii) : bool :=
  let n := nat_of_ascii c in
  bool_decide (48 ≤ n ≤ 57)%nat || bool_decide (n = 45%nat) || bool_decide (n = 78%nat).

(** ** Proof automation *)


(** * Properties *)

(** ** Basic facts about the embedding *)

Lemma includes_elem_of (l : list num) (x : num) :
  includes l x = true ↔ x ∈ l.
Proof.
  unfold includes, same_value_zero. rewrite existsb_exists. split.
  - intros (y & Hin & Heq). apply bool_decide_eq_true in Heq. subst y.
    by apply list_elem_of_In.
  - intros Hin. exists x. split; [by apply list_elem_of_In|].
    by apply bool_decide_eq_true.
Qed.

Lemma lt_Int (x y : Z) : lt (Int x) (Int y) = bool_decide (x < y).
Proof. reflexivity. Qed.

Lemma len_stages : len stages = Int 7.
Proof. reflexivity. Qed.

Lemma steps_app (ops1 ops2 : list op) (st : WorkflowState) :
  steps (ops1 ++ ops2) st = steps ops2 (steps ops1 st).
Proof. unfold steps. apply foldl_app. Qed.

Lemma steps_cons (a : op) (ops : list op) (st : WorkflowState) :
  steps (a :: ops) st = steps ops (step st a).
Proof. reflexivity. Qed.

Lemma step_eq (st : WorkflowState) (a : op) :
  step st a =
  match a with
  | Next o => after (handleNext o) st
  | Previous => after handleBack st
  | Click n => after (handleStageClick n) st
  | Change d => after (handleStageDataChange d) st
  | Reload o doc => after (λ _, loadWorkflowData o doc) st
  end.
Proof. by destruct a. Qed.

(** What each handler does to the three fields of the workflow instance. *)

Lemma handleNext_resolved_current (st : WorkflowState) :
  currentStage (after (handleNext Resolved) st) =
  if lt (currentStage st) (Int 7) then add (currentStage st) (Int 1)
  else currentStage st.
Proof.
  unfold after, handleNext. rewrite len_stages.
  destruct (lt (currentStage st) (Int 7)); reflexivity.
Qed.

Lemma handleNext_resolved_completed (st : WorkflowState) :
  completedStages (after (handleNext Resolved) st) =
  completedStages st ++ [currentStage st].
Proof.
  unfold after, handleNext. rewrite len_stages.
  destruct (lt (currentStage st) (Int 7)); reflexivity.
Qed.

Lemma handleNext_stageData (o : settle) (st : WorkflowState) :
  stageData (after (handleNext o) st) = stageData st.
Proof.
  unfold after, handleNext. rewrite len_stages.
  destruct o; [destruct (lt (currentStage st) (Int 7))| |]; reflexivity.
Qed.

Lemma handleNext_unresolved (o : settle) (st : WorkflowState) :
  o ≠ Resolved →
  currentStage (after (handleNext o) st) = currentStage st
  ∧ completedStages (after (handleNext o) st) = completedStages st.
Proof. intros Ho. destruct o; [done| |]; split; reflexivity. Qed.

Lemma handleBack_current (st : WorkflowState) :
  currentStage (after handleBack st) =
  if gt (currentStage st) (Int 1) then sub (currentStage st) (Int 1)
  else currentStage st.
Proof.
  unfold after, handleBack. destruct (gt (currentStage st) (Int 1)); reflexivity.
Qed.

Lemma handleBack_frame (st : WorkflowState) :
  completedStages (after handleBack st) = completedStages st
  ∧ stageData (after handleBack st) = stageData st.
Proof.
  unfold after, handleBack.
  destruct (gt (currentStage st) (Int 1)); split; reflexivity.
Qed.

Lemma handleStageClick_current (n : num) (st : WorkflowState) :
  currentStage (after (handleStageClick n) st) =
  if clickAllowed st n then n else currentStage st.
Proof.
  unfold after, handleStageClick. destruct (clickAllowed st n); reflexivity.
Qed.

Lemma handleStageClick_frame (n : num) (st : WorkflowState) :
  completedStages (after (handleStageClick n) st) = completedStages st
  ∧ stageData (after (handleStageClick n) st) = stageData st.
Proof.
  unfold after, handleStageClick. destruct (clickAllowed st n); split; reflexivity.
Qed.

Lemma handleStageDataChange_state (d : jsval) (st : WorkflowState) :
  after (handleStageDataChange d) st =
  apply (SetStageData (<[to_string (currentStage st) := d]> (stageData st))) st.
Proof.
  unfold after, handleStageDataChange.
  destruct (strict_eq (currentStage st) (Int 1) && truthy (opt_prop d "document_id"));
    reflexivity.
Qed.

Lemma loadWorkflowData_state (o : settle) (doc : string) (st : WorkflowState) :
  let st' := after (λ _, loadWorkflowData o doc) st in
  (currentStage st' = Int 3 ∧ completedStages st' = [Int 1; Int 2])
  ∨ (currentStage st' = currentStage st ∧ completedStages st' = completedStages st).
Proof.
  unfold after, loadWorkflowData.
  destruct o; [destruct (bool_decide (doc = "demo"))| |]; simpl; auto.
Qed.

(** ** Entering a completed stage (C1) *)

(** C1, as stated, fails: with stages 1 to 4 completed, a click on stage 2
    is accepted and moves [currentStage] to 2, but stages 3 and 4 are still
    in [completedStages], which is not reduced to [[1]]. *)
Lemma click_completed_keeps_later_stages :
  let st' := after (handleStageClick (Int 2)) four_done in
  completedStages four_done = [Int 1; Int 2; Int 3; Int 4]
  ∧ currentStage st' = Int 2
  ∧ Int 3 ∈ completedStages st'
  ∧ Int 4 ∈ completedStages st'
  ∧ completedStages st' ≠ [Int 1].
Proof.
  cbv zeta. repeat split.
  - apply (proj1 (includes_elem_of _ _)). reflexivity.
  - apply (proj1 (includes_elem_of _ _)). reflexivity.
  - discriminate.
Qed.

(** C1, amended: a click on a stage that is in [completedStages] sets
    [currentStage] to that stage and changes neither [completedStages] nor
    the stored payloads; nothing is invalidated by navigation. *)
Theorem handleStageClick_completed_stage (st : WorkflowState) (n : num) :
  n ∈ completedStages st →
  let st' := after (handleStageClick n) st in
  currentStage st' = n
  ∧ completedStages st' = completedStages st
  ∧ stageData st' = stageData st.
Proof.
  intros Hin st'. subst st'.
  rewrite handleStageClick_current.
  destruct (handleStageClick_frame n st) as [Hc Hd].
  assert (clickAllowed st n = true) as ->; [|done].
  unfold clickAllowed. apply includes_elem_of in Hin. by rewrite Hin.
Qed.

Lemma handleStageClick_completed_stage_witness :
  currentStage (after (handleStageClick (Int 2)) four_done) = Int 2
  ∧ completedStages (after (handleStageClick (Int 2)) four_done)
    = [Int 1; Int 2; Int 3; Int 4].
Proof.
  assert (Int 2 ∈ completedStages four_done) as Hin
    by (apply (proj1 (includes_elem_of _ _)); reflexivity).
  destruct (handleStageClick_completed_stage four_done (Int 2) Hin) as (H1 & H2 & _).
  split; [exact H1 | exact H2].
Defined.

(** ** Navigating back (C8) *)

(** C8: [handleBack] lowers [currentStage] by exactly one when it is
    greater than 1 (and at most [2^53], the range in which [- 1] is exact)
    and changes nothing when it is 1 (or less); in every case
    [completedStages] and the stored payloads are as before. *)
Theorem handleBack_decrements (st : WorkflowState) (z : Z) :
  currentStage st = Int z →
  let st' := after handleBack st in
  (1 < z ≤ safe_bound → currentStage st' = Int (z - 1))
  ∧ (z ≤ 1 → st' = st)
  ∧ completedStages st' = completedStages st
  ∧ stageData st' = stageData st.
Proof.
  intros Hz st'. subst st'.
  destruct (handleBack_frame st) as [Hc Hd].
  repeat split; [| |exact Hc|exact Hd].
  - intros [Hgt _]. rewrite handleBack_current, Hz. unfold gt. rewrite lt_Int.
    by rewrite bool_decide_true by lia.
  - intros Hle. unfold after, handleBack. rewrite Hz. unfold gt. rewrite lt_Int.
    by rewrite bool_decide_false by lia.
Qed.

Lemma handleBack_decrements_witness :
  completedStages demo = [Int 1; Int 2]
  ∧ currentStage demo = Int 3
  ∧ currentStage (after handleBack demo) = Int 2
  ∧ completedStages (after handleBack demo) = [Int 1; Int 2]
  ∧ after handleBack fresh = fresh.
Proof.
  destruct (handleBack_decrements demo 3 eq_refl) as (Hdec & _ & Hc & _).
  destruct (handleBack_decrements fresh 1 eq_refl) as (_ & Hnoop & _).
  refine (conj eq_refl (conj eq_refl (conj (Hdec _) (conj Hc (Hnoop _)))));
    unfold safe_bound; lia.
Defined.

(** ** Recording a payload (C9) *)

(** C9: recording the same payload twice gives the state that recording it
    once gives; the payload is then stored under the current stage, and
    [currentStage] and [completedStages] are untouched. *)
Theorem handleStageDataChange_idempotent (d : jsval) (st : WorkflowState) :
  let once := after (handleStageDataChange d) st in
  after (handleStageDataChange d) once = once
  ∧ stageData once !! to_string (currentStage st) = Some d
  ∧ currentStage once = currentStage st
  ∧ completedStages once = completedStages st.
Proof.
  cbv zeta. rewrite !handleStageDataChange_state. simpl. repeat split.
  - by rewrite insert_insert_eq.
  - apply lookup_insert_eq.
Qed.

(** ** Refused navigation (C10) *)

(** C10: a click on a stage that is neither completed nor the stage the
    gate takes for the next one changes no part of the state; it only shows
    the message. *)
Theorem rejected_click_is_noop (st : WorkflowState) (n : num) :
  n ∉ completedStages st →
  strict_eq n (add (len (completedStages st)) (Int 1)) = false →
  after (handleStageClick n) st = st
  ∧ handleStageClick n st = [Toast Error "Complete previous stages first"].
Proof.
  intros Hnin Hnext.
  assert (clickAllowed st n = false) as Hgate.
  { unfold clickAllowed. rewrite Hnext, orb_false_r.
    apply not_true_is_false. by rewrite includes_elem_of. }
  unfold after, handleStageClick. rewrite Hgate. by destruct st.
Qed.

Lemma rejected_click_is_noop_witness :
  after (handleStageClick (Int 5)) demo = demo
  ∧ handleStageClick (Int 5) demo = [Toast Error "Complete previous stages first"].
Proof.
  apply (rejected_click_is_noop demo (Int 5)).
  - rewrite <- includes_elem_of. discriminate.
  - reflexivity.
Defined.

(** ** The navigation gate (C2, C7) *)

Lemma max_completed_snoc (l : list num) (z : Z) :
  0 ≤ z → max_completed (l ++ [Int z]) = Z.max z (max_completed l).
Proof.
  intros Hz. unfold max_completed. rewrite foldr_app. simpl.
  induction l as [|x l IH]; simpl; [lia|].
  destruct x as [|y]; [exact IH|]. rewrite IH. lia.
Qed.

Lemma max_completed_first_stages (k : nat) :
  max_completed (first_stages k) = Z.of_nat k.
Proof.
  induction k as [|k IH]; [reflexivity|].
  unfold first_stages in *. rewrite seq_S, fmap_app. simpl.
  rewrite max_completed_snoc by lia. rewrite IH. lia.
Qed.

Lemma length_first_stages (k : nat) : length (first_stages k) = k.
Proof. unfold first_stages. by rewrite length_fmap, length_seq. Qed.

Lemma max_completed_elem (l : list num) (z : Z) :
  Int z ∈ l → z ≤ max_completed l.
Proof.
  induction l as [|x l IH]; [by intros ?%elem_of_nil|].
  intros [<-|Hin]%elem_of_cons; simpl; [lia|].
  specialize (IH Hin). destruct x; lia.
Qed.

Lemma max_completed_nonneg (l : list num) : 0 ≤ max_completed l.
Proof. induction l as [|[|z] l IH]; simpl; lia. Qed.

(** On a list of completed stages without gaps or repetitions the gate of
    [handleStageClick] is the rule of the specification. *)
Lemma clickAllowed_first_stages (st : WorkflowState) (k : nat) (n : num) :
  completedStages st = first_stages k →
  clickAllowed st n = canEnter_spec (completedStages st) n.
Proof.
  intros Hk. unfold clickAllowed, canEnter_spec, len. rewrite Hk.
  rewrite max_completed_first_stages, length_first_stages. f_equal.
  destruct (includes (first_stages k) n) eqn:Hinc.
  - symmetry. apply bool_decide_eq_true. by apply includes_elem_of.
  - symmetry. apply bool_decide_eq_false. rewrite <- includes_elem_of. congruence.
Qed.

Lemma remove_dups_length_le {A} `{EqDecision A} (l : list A) :
  (length (remove_dups l) ≤ length l)%nat.
Proof.
  induction l as [|x l IH]; simpl; [lia|]. case_decide; simpl; lia.
Qed.

Lemma remove_dups_length_lt {A} `{EqDecision A} (l : list A) :
  ¬ NoDup l → (length (remove_dups l) < length l)%nat.
Proof.
  induction l as [|x l IH]; intros Hdup.
  - destruct Hdup. constructor.
  - simpl. case_decide as Hx.
    + pose proof (remove_dups_length_le l). lia.
    + simpl. apply Nat.succ_lt_mono with (n := length (remove_dups l)), IH.
      intros Hnd. apply Hdup. by constructor.
Qed.

(** C2: the gate of [handleStageClick] is not the rule "completed, or one
    past the furthest completed stage".  Once stage 1 has been completed
    twice, [completedStages] is [[1; 1]]: the rule permits stage 2 and
    refuses stage 3, while the gate compares with [length + 1 = 3], refuses
    stage 2 and lets a click on stage 3 through.  (With [[1; 2]] completed,
    stage 5 is refused by both.) *)
Theorem gate_counts_duplicates :
  completedStages twice_one = [Int 1; Int 1]
  ∧ canEnter_spec (completedStages twice_one) (Int 3) = false
  ∧ clickAllowed twice_one (Int 3) = true
  ∧ currentStage (after (handleStageClick (Int 3)) twice_one) = Int 3
  ∧ canEnter_spec (completedStages twice_one) (Int 2) = true
  ∧ clickAllowed twice_one (Int 2) = false
  ∧ clickAllowed demo (Int 5) = false
  ∧ canEnter_spec (completedStages demo) (Int 5) = false.
Proof. repeat split. Qed.

(** C7: [completedStages] is an array, not a set.  Completing a stage that
    is already in it appends the stage once more, so the array has more
    entries than distinct stages; and when the stages 1 to [k] had been
    completed once each, the gate afterwards admits stage [k + 2], which is
    beyond the stage after the furthest completed one. *)
Theorem recompleting_appends_duplicate (st : WorkflowState) :
  currentStage st ∈ completedStages st →
  let st' := after (handleNext Resolved) st in
  completedStages st' = completedStages st ++ [currentStage st]
  ∧ ¬ NoDup (completedStages st')
  ∧ (length (remove_dups (completedStages st')) < length (completedStages st'))%nat
  ∧ ∀ k : nat, completedStages st = first_stages k →
      clickAllowed st' (Int (Z.of_nat k + 2)) = true
      ∧ max_completed (completedStages st') + 1 < Z.of_nat k + 2.
Proof.
  intros Hin st'. subst st'. rewrite handleNext_resolved_completed.
  assert (¬ NoDup (completedStages st ++ [currentStage st])) as Hdup.
  { rewrite NoDup_app. intros (_ & Hdisj & _).
    apply (Hdisj _ Hin). by apply list_elem_of_singleton. }
  split; [done|]. split; [done|]. split; [by apply remove_dups_length_lt|].
  intros k Hk. split.
  - unfold clickAllowed. rewrite handleNext_resolved_completed.
    apply orb_true_iff. right. unfold len. rewrite length_app, Hk, length_first_stages.
    simpl. apply bool_decide_eq_true. lia.
  - destruct (currentStage st) as [|c] eqn:Hc.
    + unfold max_completed. rewrite foldr_app. simpl.
      fold (max_completed (completedStages st)).
      rewrite Hk, max_completed_first_stages. lia.
    + pose proof (max_completed_elem _ _ Hin) as Hle.
      pose proof (max_completed_nonneg (completedStages st)) as Hnn.
      rewrite Hk, max_completed_first_stages in Hle.
      assert (0 ≤ c ∨ c < 0) as [Hc0|Hc0] by lia.
      * rewrite max_completed_snoc by done.
        rewrite Hk, max_completed_first_stages. lia.
      * unfold max_completed. rewrite foldr_app. simpl.
        rewrite Z.max_r by lia. fold (max_completed (completedStages st)).
        rewrite Hk, max_completed_first_stages. lia.
Qed.

Lemma recompleting_appends_duplicate_witness :
  completedStages (after (handleNext Resolved) (after handleBack demo))
    = [Int 1; Int 2; Int 2]
  ∧ clickAllowed (after (handleNext Resolved) (after handleBack demo)) (Int 4) = true
  ∧ max_completed (completedStages (after (handleNext Resolved) (after handleBack demo))) + 1
    < 4.
Proof.
  assert (currentStage (after handleBack demo) ∈ completedStages (after handleBack demo))
    as Hin by (apply (proj1 (includes_elem_of _ _)); reflexivity).
  destruct (recompleting_appends_duplicate (after handleBack demo) Hin)
    as (Happ & _ & _ & Hgate).
  destruct (Hgate 2%nat eq_refl) as [Hadm Hmax].
  refine (conj Happ (conj Hadm Hmax)).
Defined.

(** ** Completing a stage (C3, C6) *)

(** C3: [handleNext] does not consult [validateStage].  On a new workflow
    nothing has been uploaded and [validateStage] reports the unmet
    condition and returns [false]; [handleNext] nevertheless marks stage 1
    completed and moves to stage 2, and on no state does it touch
    [validationErrors]. *)
Theorem handleNext_skips_validation :
  validateStage fresh
    = ([SetValidationErrors ["Please upload a file before proceeding"]], false)
  ∧ currentStage (after (handleNext Resolved) fresh) = Int 2
  ∧ completedStages (after (handleNext Resolved) fresh) = [Int 1]
  ∧ ∀ o st, validationErrors (after (handleNext o) st) = validationErrors st.
Proof.
  repeat split. intros o st. unfold after, handleNext. rewrite len_stages.
  destruct o; [destruct (lt (currentStage st) (Int 7))| |]; reflexivity.
Qed.




(** ** Invariants over sequences of operations (C4, C5) *)

Lemma upto_mono (b b' : Z) (x : num) :
  b ≤ b' → upto (Int b) x → upto (Int b') x.
Proof. intros Hle. destruct x; simpl; [done|lia]. Qed.

Lemma upto_self (n : num) : upto n n ↔ ∃ z, n = Int z ∧ 1 ≤ z.
Proof.
  destruct n as [|z]; simpl; split.
  - done.
  - by intros (z & ? & _).
  - intros H. exists z. split; [done|lia].
  - intros (z' & [= <-] & H). lia.
Qed.

Lemma demo_fields_ahead : Forall (upto (Int 3)) [Int 1; Int 2].
Proof. apply Forall_cons. split; [simpl; lia|]. apply Forall_singleton. simpl. lia. Qed.

Lemma step_forward_ahead (st : WorkflowState) (a : op) :
  forward_op a = true → ahead_of_completed st → ahead_of_completed (step st a).
Proof.
  intros Hfw [Hcur Hall]. unfold ahead_of_completed, completed_upto_current in *.
  destruct a as [o| |n|d|o doc]; try discriminate Hfw; rewrite step_eq.
  - destruct o.
    + rewrite handleNext_resolved_current, handleNext_resolved_completed.
      apply upto_self in Hcur as (z & Hz & Hz1). rewrite Hz in *. rewrite lt_Int.
      case_bool_decide; simpl.
      * split; [lia|]. apply Forall_app. split.
        -- eapply Forall_impl; [exact Hall|]. intros x. apply upto_mono. lia.
        -- apply Forall_singleton. simpl. lia.
      * split; [lia|]. apply Forall_app. split; [done|].
        apply Forall_singleton. simpl. lia.
    + by destruct (handleNext_unresolved Rejected st) as [-> ->].
    + by destruct (handleNext_unresolved Pending st) as [-> ->].
  - rewrite handleStageDataChange_state. by simpl.
  - destruct (loadWorkflowData_state o doc st) as [[-> ->]|[-> ->]].
    + split; [simpl; lia|apply demo_fields_ahead].
    + done.
Qed.

Lemma step_in_range (st : WorkflowState) (a : op) :
  pipeline_op a → stages_in_range st → stages_in_range (step st a).
Proof.
  intros Hop [Hcur Hall]. unfold stages_in_range in *.
  destruct a as [o| |n|d|o doc]; rewrite step_eq.
  - destruct o.
    + rewrite handleNext_resolved_current, handleNext_resolved_completed.
      split.
      * destruct (currentStage st) as [|z]; [done|]. rewrite lt_Int.
        case_bool_decide; simpl in *; lia.
      * apply Forall_app. split; [done|]. by apply Forall_singleton.
    + by destruct (handleNext_unresolved Rejected st) as [-> ->].
    + by destruct (handleNext_unresolved Pending st) as [-> ->].
  - rewrite handleBack_current. destruct (handleBack_frame st) as [-> _].
    split; [|done]. destruct (currentStage st) as [|z]; [done|].
    unfold gt. rewrite lt_Int. case_bool_decide; simpl in *; lia.
  - rewrite handleStageClick_current.
    destruct (handleStageClick_frame n st) as [-> _].
    split; [|done]. by destruct (clickAllowed st n).
  - rewrite handleStageDataChange_state. by simpl.
  - destruct (loadWorkflowData_state o doc st) as [[-> ->]|[-> ->]].
    + split; [simpl; lia|].
      apply Forall_cons. split; [simpl; lia|]. apply Forall_singleton. simpl. lia.
    + done.
Qed.

Lemma steps_in_range (ops : list op) (st : WorkflowState) :
  Forall pipeline_op ops → stages_in_range st → stages_in_range (steps ops st).
Proof.
  intros Hops. revert st.
  induction Hops as [|a ops Ha _ IH]; intros st Hst; [done|].
  rewrite steps_cons. by apply IH, step_in_range.
Qed.

(** C4, as stated, fails: after completing stages 1 and 2 and going back
    twice, the current stage is 1 while stage 2 is still completed. *)
Lemma back_leaves_completed_ahead :
  let st := steps [Next Resolved; Next Resolved; Previous; Previous] fresh in
  currentStage st = Int 1
  ∧ completedStages st = [Int 1; Int 2]
  ∧ ¬ completed_upto_current st.
Proof.
  cbv zeta. set (st := steps _ fresh).
  assert (currentStage st = Int 1) as Hcur by (vm_compute; reflexivity).
  assert (completedStages st = [Int 1; Int 2]) as Hdone by (vm_compute; reflexivity).
  split; [exact Hcur|]. split; [exact Hdone|].
  unfold completed_upto_current. rewrite Hcur, Hdone. intros Hall.
  apply Forall_cons in Hall as [_ Hall].
  apply Forall_cons in Hall as [H2 _]. simpl in H2. lia.
Qed.

(** The hypothesis of the amended C4 on a first render: it holds when the
    route's stage is an integer from 1 on, and it is needed: from the route
    stage 0 one completion records stage 0. *)
Lemma first_render_ahead_of_completed (stage : option string) (z : Z) :
  currentStage (initialState stage) = Int z → 1 ≤ z →
  ahead_of_completed (initialState stage).
Proof.
  intros Hcur Hz. split; [|constructor]. rewrite Hcur. simpl. lia.
Qed.

Lemma route_zero_completes_stage_zero :
  completedStages (step (initialState (Some "0")) (Next Resolved)) = [Int 0]
  ∧ currentStage (step (initialState (Some "0")) (Next Resolved)) = Int 1
  ∧ ¬ ahead_of_completed (initialState (Some "0")).
Proof.
  split; [reflexivity|]. split; [reflexivity|].
  intros [Hcur _]. change (1 ≤ 0 ≤ 0) in Hcur. lia.
Qed.

(** C4, amended: from a state whose current stage is an integer from 1 on
    and whose completed stages lie between 1 and it, every sequence of
    completions, payload recordings and loads leads to a state whose
    completed stages all lie in [{1, ..., currentStage}]. *)
Theorem forward_ops_keep_completed_behind (ops : list op) (st : WorkflowState) :
  ahead_of_completed st →
  forallb forward_op ops = true →
  completed_upto_current (steps ops st).
Proof.
  intros Hst Hops.
  cut (ahead_of_completed (steps ops st)); [by intros [_ ?]|].
  revert st Hst. induction ops as [|a ops IH]; intros st Hst; [done|].
  simpl in Hops. apply andb_true_iff in Hops as [Ha Hops].
  rewrite steps_cons. apply IH; [done|]. by apply step_forward_ahead.
Qed.

Lemma forward_ops_keep_completed_behind_witness :
  completed_upto_current
    (steps [Reload Resolved "demo"; Change (VBool true); Next Resolved; Next Rejected]
       (initialState (Some "2"))).
Proof.
  apply forward_ops_keep_completed_behind.
  - split; [change (1 ≤ 2 ≤ 2); lia|constructor].
  - reflexivity.
Defined.

(** At the last stage the button on the right is "Complete Workflow": it
    opens the confirmation dialog and does not run [handleNext]; confirming
    there calls no setter at all. *)
Lemma nextButton_last_stage (o : settle) (st : WorkflowState) :
  currentStage st = Int 7 →
  nextButton o st = openConfirmDialog ∧ run completeWorkflow st = st.
Proof. intros H7. unfold nextButton. rewrite H7. by destruct st. Qed.

(** C5, as stated, fails: the route [/workflow/doc/9] starts the component
    at stage 9. *)
Lemma route_parameter_out_of_range :
  currentStage (initialState (Some "9")) = Int 9
  ∧ ¬ in_range (currentStage (initialState (Some "9"))).
Proof. split; [reflexivity|]. change (¬ (1 ≤ 9 ≤ 7)). lia. Qed.

(** C5, amended: when the stage parsed from the route parameter lies in
    [1, 7] and the stage clicks carry the pipeline's ids 1 to 7, the current
    stage lies in [1, 7] after every sequence of operations (loads
    included); and if it is 7 there, [handleNext] saves, appends 7 to
    [completedStages] and leaves the current stage at 7; apart from
    [isProcessing] no other cell is set. *)
Theorem currentStage_stays_in_range (stage : option string) (ops : list op) :
  in_range (currentStage (initialState stage)) →
  Forall pipeline_op ops →
  let st := steps ops (initialState stage) in
  in_range (currentStage st)
  ∧ (currentStage st = Int 7 →
      handleNext Resolved st
        = [SetIsProcessing true; Timer 1000;
           ConsoleLog "Saving stage data:" (stageData st);
           SetCompletedStages (completedStages st ++ [Int 7]);
           SetIsProcessing false]
      ∧ currentStage (after (handleNext Resolved) st) = Int 7
      ∧ completedStages (after (handleNext Resolved) st) = completedStages st ++ [Int 7]).
Proof.
  intros Hinit Hops st.
  assert (stages_in_range st) as [Hcur _].
  { apply steps_in_range; [done|]. split; [done|constructor]. }
  split; [done|]. intros H7.
  rewrite handleNext_resolved_current, handleNext_resolved_completed.
  unfold handleNext, saveStageData. rewrite len_stages, H7. done.
Qed.

Lemma currentStage_stays_in_range_witness :
  currentStage six_done = Int 7
  ∧ completedStages (after (handleNext Resolved) six_done)
    = [Int 1; Int 2; Int 3; Int 4; Int 5; Int 6; Int 7]
  ∧ currentStage (after (handleNext Resolved) six_done) = Int 7.
Proof.
  assert (in_range (currentStage (initialState None))) as Hinit
    by (change (1 ≤ 1 ≤ 7); lia).
  assert (Forall pipeline_op (replicate 6 (Next Resolved))) as Hops
    by (repeat constructor).
  destruct (currentStage_stays_in_range None (replicate 6 (Next Resolved)) Hinit Hops)
    as [_ H7].
  destruct (H7 eq_refl) as (_ & Hcur & Hdone).
  refine (conj eq_refl (conj Hdone Hcur)).
Defined.

(** * Further properties of the page *)

(** ** Numerals: [String(n)] and [parseInt] *)

Lemma digit_val_pretty (m : N) :
  (m < 10)%N → digit_val 10 (pretty_N_char m) = Some (Z.of_N m).
Proof.
  intros Hm.
  assert (m = 0 ∨ m = 1 ∨ m = 2 ∨ m = 3 ∨ m = 4 ∨ m = 5 ∨ m = 6 ∨ m = 7
          ∨ m = 8 ∨ m = 9)%N as Hcases by lia.
  destruct_or!; subst m; reflexivity.
Qed.

Lemma pretty_N_go_head (x : N) :
  ∀ s, (0 < x)%N →
  ∃ m rest, (0 < m < 10)%N ∧ pretty_N_go x s = String (pretty_N_char m) rest.
Proof.
  induction (N.lt_wf_0 x) as [x _ IH]; intros s Hx.
  rewrite pretty_N_go_step by done.
  assert (x < 10 ∨ 10 ≤ x)%N as [Hsmall|Hbig] by lia.
  - rewrite N.div_small, pretty_N_go_0 by done.
    exists (x `mod` 10)%N, s. split; [|done]. rewrite N.mod_small by done. lia.
  - apply IH.
    + by apply N.div_lt.
    + apply N.div_str_pos. lia.
Qed.

Lemma parse_digits_pretty_go (x : N) :
  ∀ s acc, ∃ acc',
    parse_digits 10 (pretty_N_go x s) acc = parse_digits 10 s acc'
    ∧ (x = 0%N → acc' = acc)
    ∧ ((0 < x)%N → default 0 acc = 0 → acc' = Some (Z.of_N x)).
Proof.
  induction (N.lt_wf_0 x) as [x _ IH]; intros s acc.
  assert (x = 0 ∨ 0 < x)%N as [->|Hx] by lia.
  - exists acc. rewrite pretty_N_go_0. split; [done|]. split; [done|lia].
  - rewrite pretty_N_go_step by done.
    destruct (IH (x `div` 10)%N (N.div_lt x 10 Hx eq_refl)
                (String (pretty_N_char (x `mod` 10)) s) acc)
      as (acc1 & Heq & Hzero & Hpos).
    rewrite Heq. cbn [parse_digits].
    rewrite digit_val_pretty by (apply N.mod_lt; lia).
    eexists. split; [reflexivity|]. split; [lia|]. intros _ Hacc. f_equal.
    pose proof (N.div_mod x 10 ltac:(done)) as Hdm.
    destruct (decide (x `div` 10 = 0)%N) as [Hq|Hq].
    + rewrite (Hzero Hq), Hacc.
      apply N.div_small_iff in Hq; [|done]. rewrite N.mod_small by done. lia.
    + rewrite Hpos by (done || by apply N.neq_0_lt_0). simpl.
      rewrite Hdm at 3. rewrite N2Z.inj_add, N2Z.inj_mul. lia.
Qed.

Lemma parseInt_digits (m : N) (rest : string) :
  (0 < m < 10)%N →
  parseInt (String (pretty_N_char m) rest)
    = match parse_digits 10 (String (pretty_N_char m) rest) None with
      | Some v => Int v
      | None => NaN
      end
  ∧ parseInt (String "-"%char (String (pretty_N_char m) rest))
    = match parse_digits 10 (String (pretty_N_char m) rest) None with
      | Some v => Int (- v)
      | None => NaN
      end.
Proof.
  intros Hm.
  assert (m = 1 ∨ m = 2 ∨ m = 3 ∨ m = 4 ∨ m = 5 ∨ m = 6 ∨ m = 7
          ∨ m = 8 ∨ m = 9)%N as Hcases by lia.
  destruct_or!; subst m; split; reflexivity.
Qed.

Lemma pretty_pos_go (p : positive) : pretty (Z.pos p) = pretty_N_go (N.pos p) "".
Proof. reflexivity. Qed.

Lemma pretty_neg_go (p : positive) :
  pretty (Z.neg p) = String "-"%char (pretty_N_go (N.pos p) "").
Proof. reflexivity. Qed.

Lemma parse_digits_numeral (p : positive) :
  parse_digits 10 (pretty_N_go (N.pos p) "") None = Some (Z.pos p).
Proof.
  destruct (parse_digits_pretty_go (N.pos p) "" None) as (acc' & -> & _ & Hpos).
  simpl. rewrite Hpos by (done || lia). done.
Qed.

(** Reading back a printed number gives the number (on the exact numerals
    of the model; for the code this is the case of the [safe] numbers). *)
Lemma parseInt_to_string (n : num) : parseInt (to_string n) = n.
Proof.
  destruct n as [|[|p|p]]; [reflexivity|reflexivity| |]; unfold to_string.
  - rewrite pretty_pos_go.
    destruct (pretty_N_go_head (N.pos p) "" ltac:(lia)) as (m & rest & Hm & Hhead).
    pose proof (parse_digits_numeral p) as Hval. rewrite Hhead in *.
    rewrite (proj1 (parseInt_digits m rest Hm)), Hval. done.
  - rewrite pretty_neg_go.
    destruct (pretty_N_go_head (N.pos p) "" ltac:(lia)) as (m & rest & Hm & Hhead).
    pose proof (parse_digits_numeral p) as Hval. rewrite Hhead in *.
    rewrite (proj2 (parseInt_digits m rest Hm)), Hval. done.
Qed.

Lemma numeral_head_digit (m : N) :
  (m < 10)%N → numeral_head (pretty_N_char m) = true ∧ pretty_N_char m ≠ "N"%char.
Proof.
  intros Hm.
  assert (m = 0 ∨ m = 1 ∨ m = 2 ∨ m = 3 ∨ m = 4 ∨ m = 5 ∨ m = 6 ∨ m = 7
          ∨ m = 8 ∨ m = 9)%N as Hcases by lia.
  destruct_or!; subst m; split; (reflexivity || discriminate).
Qed.

(** A printed number starts with a digit, a minus sign or the [N] of
    ["NaN"], and only ["NaN"] starts with [N]. *)
Lemma to_string_head (n : num) :
  ∃ c rest, to_string n = String c rest ∧ numeral_head c = true
            ∧ (c = "N"%char → n = NaN).
Proof.
  destruct n as [|[|p|p]]; unfold to_string.
  - by exists "N"%char, "aN".
  - exists "0"%char, "". repeat split. discriminate.
  - rewrite pretty_pos_go.
    destruct (pretty_N_go_head (N.pos p) "" ltac:(lia)) as (m & rest & Hm & ->).
    destruct (numeral_head_digit m ltac:(lia)) as [Hh Hne].
    exists (pretty_N_char m), rest. repeat split; [done|]. by intros ?.
  - rewrite pretty_neg_go. eexists _, _. repeat split. discriminate.
Qed.

Lemma to_string_inj (a b : num) : to_string a = to_string b → a = b.
Proof.
  intros Heq. destruct a as [|x], b as [|y]; [done| | |].
  - destruct (to_string_head (Int y)) as (c & rest & Hs & _ & HN).
    rewrite <- Heq in Hs. injection Hs as <- _. by rewrite HN.
  - destruct (to_string_head (Int x)) as (c & rest & Hs & _ & HN).
    rewrite Heq in Hs. injection Hs as <- _. by rewrite HN.
  - f_equal. by apply (inj pretty).
Qed.

Lemma to_string_not_flag (n : num) (k : string) :
  k ∈ validation_flags → to_string n ≠ k.
Proof.
  intros Hk Heq. destruct (to_string_head n) as (c & rest & Hs & Hhead & _).
  rewrite Heq in Hs. unfold validation_flags in Hk.
  repeat (apply elem_of_cons in Hk as [->|Hk]; [by injection Hs as <- _|]).
  by apply elem_of_nil in Hk.
Qed.

(** ** The URL and the initial stage *)

(** X1: the URL effect navigates exactly for a document id that is
    present and neither empty nor ["new"], and then to
    [/workflow/<id>/<stage>] with the replace option; for a current stage
    that is [NaN] or an integer of magnitude at most [2^53] the stage
    segment it writes is read back by the initial state as the same stage,
    so a page opened at the synchronised URL starts at the stage the page
    was showing. *)
Theorem synced_url_restores_stage (documentId : option string) (st : WorkflowState) :
  safe (currentStage st) →
  let segment := to_string (currentStage st) in
  (∀ doc, documentId = Some doc → doc ≠ "" → doc ≠ "new" →
     syncUrl documentId st = [Navigate ("/workflow/" +:+ doc +:+ "/" +:+ segment) true])
  ∧ (documentId = None ∨ documentId = Some "" ∨ documentId = Some "new" →
     syncUrl documentId st = [])
  ∧ currentStage (initialState (Some segment)) = currentStage st.
Proof.
  intros _ segment. split_and!.
  - intros doc -> Hdoc Hnew. unfold syncUrl. by rewrite !bool_decide_false by done.
  - intros [-> | [-> | ->]]; reflexivity.
  - unfold initialState, stage_or_default. simpl. subst segment.
    destruct (to_string_head (currentStage st)) as (c & rest & Hs & _).
    rewrite bool_decide_false by (rewrite Hs; discriminate).
    apply parseInt_to_string.
Qed.

Lemma synced_url_restores_stage_witness :
  syncUrl (Some "demo") demo = [Navigate "/workflow/demo/3" true]
  ∧ syncUrl (Some "new") demo = []
  ∧ currentStage (initialState (Some "3")) = Int 3.
Proof.
  assert (safe (currentStage demo)) as Hsafe
    by (change (- safe_bound ≤ 3 ≤ safe_bound); unfold safe_bound; lia).
  destruct (synced_url_restores_stage (Some "demo") demo Hsafe) as (Hnav & _ & Hback).
  destruct (synced_url_restores_stage (Some "new") demo Hsafe) as (_ & Hnone & _).
  refine (conj (Hnav "demo" eq_refl _ _) (conj (Hnone _) Hback));
    [discriminate|discriminate|by right; right].
Defined.

(** ** Loading the workflow data *)



(** ** The buttons *)

Lemma press_frame (o : settle) (b : button) (st : WorkflowState) :
  stageData (press o b st) = stageData st.
Proof.
  unfold press. destruct (disabled b st); [done|]. destruct b; unfold onClick.
  - apply handleBack_frame.
  - unfold after, saveStageData. by destruct o.
  - unfold after, nextButton.
    destruct (lt (currentStage st) (len stages)); [|reflexivity].
    apply handleNext_stageData.
Qed.

Lemma press_completed (o : settle) (b : button) (st : WorkflowState) :
  completedStages (press o b st) = completedStages st
  ∨ (lt (currentStage st) (Int 7) = true
     ∧ completedStages (press o b st) = completedStages st ++ [currentStage st]).
Proof.
  unfold press. destruct (disabled b st); [by left|]. destruct b; unfold onClick.
  - left. apply handleBack_frame.
  - left. unfold after, saveStageData. by destruct o.
  - unfold after, nextButton. rewrite len_stages.
    destruct (lt (currentStage st) (Int 7)) eqn:Hlt; [|left; reflexivity].
    fold (after (handleNext o) st). destruct o.
    + right. split; [done|]. apply handleNext_resolved_completed.
    + left. by destruct (handleNext_unresolved Rejected st).
    + left. by destruct (handleNext_unresolved Pending st).
Qed.

Lemma react_below_last (st : WorkflowState) (ev : event) :
  Forall (λ x, lt x (Int 7) = true) (completedStages st) →
  Forall (λ x, lt x (Int 7) = true) (completedStages (react st ev)).
Proof.
  intros Hall. destruct ev as [o b|n|d|o doc]; simpl.
  - destruct (press_completed o b st) as [->|[Hlt ->]]; [done|].
    apply Forall_app. split; [done|]. by apply Forall_singleton.
  - by destruct (handleStageClick_frame n st) as [-> _].
  - by rewrite handleStageDataChange_state.
  - destruct (loadWorkflowData_state o doc st) as [[_ ->]|[_ ->]]; [|done].
    by repeat constructor.
Qed.

(** X3: through the page (buttons, pipeline clicks, payload reports and
    loads, in any order and from any route) only stages below 7 are ever
    put into [completedStages]: at stage 7 the button on the right opens
    the dialog instead of running [handleNext], so the last stage is never
    marked completed. *)
Theorem page_never_completes_last_stage (stage : option string) (evs : list event) :
  Forall (λ x, lt x (Int 7) = true)
    (completedStages (reacts evs (initialState stage))).
Proof.
  unfold reacts.
  assert (Forall (λ x, lt x (Int 7) = true) (completedStages (initialState stage)))
    as Hinit by constructor.
  revert Hinit. generalize (initialState stage).
  induction evs as [|ev evs IH]; intros st Hst; [done|].
  simpl. by apply IH, react_below_last.
Qed.

(** X4: the "Previous" button is disabled exactly when the current stage
    is 1 or a save is in progress.  For a current stage that is [NaN] or an
    integer of at most [2^53], a click on it changes the current stage
    exactly when no save is in progress and the stage is an integer above
    1; on a stage below 1 or [NaN], with no save in progress, the button is
    enabled and a click changes nothing. *)
Theorem previous_button_moves_iff (o : settle) (st : WorkflowState) :
  (∀ z, currentStage st = Int z → z ≤ safe_bound) →
  (disabled PreviousButton st = true
     ↔ currentStage st = Int 1 ∨ isProcessing st = true)
  ∧ (currentStage (press o PreviousButton st) ≠ currentStage st
     ↔ isProcessing st = false ∧ ∃ z, currentStage st = Int z ∧ 1 < z)
  ∧ (isProcessing st = false →
     currentStage st = NaN ∨ (∃ z, currentStage st = Int z ∧ z < 1) →
     disabled PreviousButton st = false ∧ press o PreviousButton st = st).
Proof.
  intros _. split_and!.
  - unfold disabled. rewrite orb_true_iff. destruct (currentStage st) as [|z]; simpl.
    + split; [intros [?|?]; [done|by right]|intros [?|?]; [done|by right]].
    + rewrite bool_decide_eq_true. split.
      * intros [->|?]; [by left|by right].
      * intros [[= ->]|?]; [by left|by right].
  - unfold press, disabled, onClick.
    destruct (currentStage st) as [|z] eqn:Hcur; simpl.
    + destruct (isProcessing st); simpl.
      * split; [done|]. by intros [? _].
      * rewrite handleBack_current, Hcur. simpl. split; [done|].
        by intros (_ & z & ? & _).
    + destruct (isProcessing st); simpl.
      * rewrite orb_true_r, Hcur. split; [done|]. by intros [? _].
      * rewrite orb_false_r. case_bool_decide as H1; simpl.
        -- subst z. rewrite Hcur. split; [done|]. intros (_ & z & [= <-] & ?). lia.
        -- rewrite handleBack_current, Hcur. unfold gt. rewrite lt_Int.
           case_bool_decide as Hgt; simpl.
           ++ split; [|intros _; injection; lia]. intros _. split; [done|]. by exists z.
           ++ split; [done|]. intros (_ & z' & [= <-] & ?). lia.
  - intros Hidle Hlow. unfold press, disabled, onClick. rewrite Hidle, orb_false_r.
    destruct Hlow as [Hnan|(z & Hz & Hlt)].
    + rewrite Hnan. simpl. split; [done|].
      unfold after, handleBack. rewrite Hnan. by destruct st.
    + rewrite Hz. simpl. rewrite bool_decide_false by lia. split; [done|].
      unfold after, handleBack, gt. rewrite Hz, lt_Int, bool_decide_false by lia.
      by destruct st.
Qed.

Lemma previous_button_moves_iff_witness :
  currentStage (press Resolved PreviousButton demo) ≠ currentStage demo
  ∧ disabled PreviousButton (initialState (Some "0")) = false
  ∧ press Resolved PreviousButton (initialState (Some "0")) = initialState (Some "0").
Proof.
  assert (∀ z, currentStage demo = Int z → z ≤ safe_bound) as Hdemo
    by (intros z Hz; change (Int 3 = Int z) in Hz; injection Hz as <-;
        unfold safe_bound; lia).
  assert (∀ z, currentStage (initialState (Some "0")) = Int z → z ≤ safe_bound) as Hzero
    by (intros z Hz; change (Int 0 = Int z) in Hz; injection Hz as <-;
        unfold safe_bound; lia).
  destruct (previous_button_moves_iff Resolved demo Hdemo) as (_ & Hmove & _).
  destruct (previous_button_moves_iff Resolved (initialState (Some "0")) Hzero)
    as (_ & _ & Hinert).
  refine (conj (proj2 Hmove (conj eq_refl (ex_intro _ 3 (conj eq_refl _)))) (Hinert eq_refl _)).
  - lia.
  - right. exists 0. split; [reflexivity|lia].
Defined.


(** ** Sequences of completions and navigation *)

Lemma first_stages_S (k : nat) :
  first_stages (S k) = first_stages k ++ [Int (Z.of_nat k + 1)].
Proof.
  unfold first_stages. rewrite seq_S, fmap_app.
  by replace (Z.of_nat k + 1) with (Z.of_nat (1 + k)) by lia.
Qed.

(** X6: completing [k ≤ 7] stages in a row on a new workflow yields
    [completedStages = [1, ..., k]] and stops the current stage at
    [min (k + 1) 7]. *)
Theorem straight_run_completes_in_order (k : nat) :
  (k ≤ 7)%nat →
  completedStages (steps (replicate k (Next Resolved)) fresh) = first_stages k
  ∧ currentStage (steps (replicate k (Next Resolved)) fresh)
    = Int (Z.min (Z.of_nat k + 1) 7).
Proof.
  induction k as [|k IH]; intros Hk; [by split|].
  destruct IH as [Hdone Hcur]; [lia|].
  rewrite replicate_S_end, steps_app. simpl. rewrite step_eq.
  rewrite handleNext_resolved_completed, handleNext_resolved_current.
  rewrite Hdone, Hcur, first_stages_S, lt_Int.
  rewrite (Z.min_l (Z.of_nat k + 1)) by lia.
  split; [done|]. case_bool_decide; simpl; f_equal; lia.
Qed.

Lemma straight_run_completes_in_order_witness :
  completedStages (steps (replicate 7 (Next Resolved)) fresh) = first_stages 7
  ∧ currentStage (steps (replicate 7 (Next Resolved)) fresh) = Int (Z.min (7 + 1) 7).
Proof. apply (straight_run_completes_in_order 7). lia. Defined.

Lemma step_completed (st : WorkflowState) (a : op) :
  is_reload a = false →
  completedStages (step st a)
    = completedStages st ++ (if is_resolved_next a then [currentStage st] else []).
Proof.
  intros Ha. rewrite step_eq. destruct a as [o| |n|d|o doc]; simpl; try done.
  - destruct o.
    + apply handleNext_resolved_completed.
    + destruct (handleNext_unresolved Rejected st) as [_ ->]; [done|].
      by rewrite app_nil_r.
    + destruct (handleNext_unresolved Pending st) as [_ ->]; [done|].
      by rewrite app_nil_r.
  - destruct (handleBack_frame st) as [-> _]. by rewrite app_nil_r.
  - destruct (handleStageClick_frame n st) as [-> _]. by rewrite app_nil_r.
  - rewrite handleStageDataChange_state. simpl. by rewrite app_nil_r.
Qed.

(** X7: without a reload [completedStages] only grows at its end: the
    list before a sequence of operations is a prefix of the list after it,
    and the list is longer by the number of completions whose save
    resolved. *)
Theorem completedStages_append_only (ops : list op) (st : WorkflowState) :
  forallb (λ a, negb (is_reload a)) ops = true →
  completedStages st `prefix_of` completedStages (steps ops st)
  ∧ length (completedStages (steps ops st))
    = (length (completedStages st) + length (List.filter is_resolved_next ops))%nat.
Proof.
  revert st. induction ops as [|a ops IH]; intros st Hops.
  - simpl. split; [done|lia].
  - simpl in Hops. apply andb_true_iff in Hops as [Ha Hops].
    apply negb_true_iff in Ha. rewrite steps_cons.
    destruct (IH (step st a) Hops) as [Hpre Hlen].
    rewrite step_completed in Hpre, Hlen by done. split.
    + etrans; [|exact Hpre]. by apply prefix_app_r.
    + rewrite Hlen, length_app. simpl.
      destruct (is_resolved_next a); simpl; lia.
Qed.

Lemma completedStages_append_only_witness :
  completedStages demo
    `prefix_of` completedStages (steps [Previous; Next Resolved; Click (Int 1); Next Rejected] demo)
  ∧ length (completedStages (steps [Previous; Next Resolved; Click (Int 1); Next Rejected] demo))
    = (2 + 1)%nat.
Proof.
  exact (completedStages_append_only
           [Previous; Next Resolved; Click (Int 1); Next Rejected] demo eq_refl).
Defined.

(** X8: a stage that is in [completedStages] can still be entered after
    any sequence of operations without a reload. *)
Theorem completed_stage_stays_enterable (ops : list op) (st : WorkflowState) (n : num) :
  forallb (λ a, negb (is_reload a)) ops = true →
  n ∈ completedStages st →
  clickAllowed (steps ops st) n = true
  ∧ currentStage (after (handleStageClick n) (steps ops st)) = n.
Proof.
  intros Hops Hin.
  assert (n ∈ completedStages (steps ops st)) as Hin'.
  { eapply elem_of_prefix; [exact Hin|]. revert st Hin.
    induction ops as [|a ops IH]; intros st Hin; [done|].
    simpl in Hops. apply andb_true_iff in Hops as [Ha Hops].
    apply negb_true_iff in Ha. rewrite steps_cons.
    etrans; [|apply (IH Hops)].
    - rewrite step_completed by done. by apply prefix_app_r.
    - rewrite step_completed by done. apply elem_of_app. by left. }
  assert (clickAllowed (steps ops st) n = true) as Hgate.
  { unfold clickAllowed. apply includes_elem_of in Hin'. by rewrite Hin'. }
  split; [done|]. by rewrite handleStageClick_current, Hgate.
Qed.

Lemma completed_stage_stays_enterable_witness :
  clickAllowed (steps [Next Resolved; Next Resolved; Previous] demo) (Int 2) = true
  ∧ currentStage (after (handleStageClick (Int 2))
                    (steps [Next Resolved; Next Resolved; Previous] demo)) = Int 2.
Proof.
  apply (completed_stage_stays_enterable [Next Resolved; Next Resolved; Previous] demo (Int 2)).
  - reflexivity.
  - apply (proj1 (includes_elem_of _ _)). reflexivity.
Defined.

(** X12: clicking the same stage of the pipeline twice gives the state
    that clicking it once gives. *)
Theorem handleStageClick_idempotent (n : num) (st : WorkflowState) :
  after (handleStageClick n) (after (handleStageClick n) st)
  = after (handleStageClick n) st.
Proof.
  unfold after at 1 3. unfold handleStageClick at 1 3.
  assert (clickAllowed (after (handleStageClick n) st) n = clickAllowed st n) as ->.
  { unfold clickAllowed. by destruct (handleStageClick_frame n st) as [-> _]. }
  destruct (clickAllowed st n) eqn:Hgate.
  - unfold after, handleStageClick. rewrite Hgate. reflexivity.
  - unfold after, handleStageClick. rewrite Hgate. reflexivity.
Qed.

(** X11: on the first render, whatever stage the route names, the gate
    lets exactly stage 1 through. *)
Theorem initial_gate_opens_stage_one_only (stage : option string) (n : num) :
  clickAllowed (initialState stage) n = true ↔ n = Int 1.
Proof.
  unfold clickAllowed. simpl. destruct n as [|z]; simpl; [done|].
  rewrite bool_decide_eq_true. split; [by intros ->|by intros [= ->]].
Qed.

Lemma initial_gate_opens_stage_one_only_witness :
  clickAllowed (initialState (Some "5")) (Int 1) = true.
Proof. exact (proj2 (initial_gate_opens_stage_one_only (Some "5") (Int 1)) eq_refl). Defined.

(** X14: for a current stage from 1 to 6, completing it and pressing back
    returns to that stage, with the stage appended to [completedStages] and
    the stored payloads untouched. *)
Theorem next_then_back_returns (st : WorkflowState) (z : Z) :
  currentStage st = Int z →
  1 ≤ z < 7 →
  let st' := after handleBack (after (handleNext Resolved) st) in
  currentStage st' = Int z
  ∧ completedStages st' = completedStages st ++ [Int z]
  ∧ stageData st' = stageData st.
Proof.
  intros Hcur Hz st'. subst st'.
  destruct (handleBack_frame (after (handleNext Resolved) st)) as [-> ->].
  rewrite handleBack_current, handleNext_resolved_current,
    handleNext_resolved_completed, handleNext_stageData, Hcur, lt_Int.
  rewrite bool_decide_true by lia. cbn [add]. unfold gt. rewrite lt_Int.
  rewrite bool_decide_true by lia. cbn [sub]. repeat split. f_equal. lia.
Qed.

Lemma next_then_back_returns_witness :
  currentStage (after handleBack (after (handleNext Resolved) demo)) = Int 3
  ∧ completedStages (after handleBack (after (handleNext Resolved) demo))
    = completedStages demo ++ [Int 3]
  ∧ stageData (after handleBack (after (handleNext Resolved) demo)) = stageData demo.
Proof. apply (next_then_back_returns demo 3); [reflexivity|lia]. Defined.

(** ** Stored payloads *)

Lemma step_stageData (st : WorkflowState) (a : op) :
  stageData (step st a)
    = match a with
      | Change d => <[to_string (currentStage st) := d]> (stageData st)
      | _ => stageData st
      end.
Proof.
  rewrite step_eq. destruct a as [o| |n|d|o doc].
  - apply handleNext_stageData.
  - apply handleBack_frame.
  - apply handleStageClick_frame.
  - by rewrite handleStageDataChange_state.
  - unfold after, loadWorkflowData.
    destruct o; [destruct (bool_decide (doc = "demo"))| |]; reflexivity.
Qed.

Lemma steps_stageData_frame (ops : list op) (st : WorkflowState) :
  forallb (λ a, negb (is_change a)) ops = true →
  stageData (steps ops st) = stageData st.
Proof.
  revert st. induction ops as [|a ops IH]; intros st Hops; [done|].
  simpl in Hops. apply andb_true_iff in Hops as [Ha Hops].
  rewrite steps_cons, (IH _ Hops), step_stageData. by destruct a.
Qed.

(** X9: a payload recorded at a stage is still the one handed to the stage
    view when, after any completions, navigation and loads, the page shows
    that stage again; none of those operations touches [stageData]. *)
Theorem payload_survives_navigation (d : jsval) (ops : list op) (st : WorkflowState) :
  forallb (λ a, negb (is_change a)) ops = true →
  let st' := steps ops (after (handleStageDataChange d) st) in
  stageData st' = <[to_string (currentStage st) := d]> (stageData st)
  ∧ (currentStage st' = currentStage st → stageProps st' = d).
Proof.
  intros Hops st'. subst st'.
  rewrite (steps_stageData_frame _ _ Hops), handleStageDataChange_state. simpl.
  split; [done|]. intros Hback. unfold stageProps, prop.
  rewrite (steps_stageData_frame _ _ Hops), Hback.
  simpl. by rewrite lookup_insert_eq.
Qed.

Lemma payload_survives_navigation_witness :
  stageProps (steps [Next Resolved; Next Rejected; Click (Int 1)]
                (after (handleStageDataChange (VStr "survey.csv")) fresh))
  = VStr "survey.csv".
Proof.
  refine (proj2 (payload_survives_navigation (VStr "survey.csv")
                   [Next Resolved; Next Rejected; Click (Int 1)] fresh eq_refl) eq_refl).
Defined.

(** X10: recording a payload at the current stage leaves the payload of
    every other stage number as it was. *)
Theorem payload_of_other_stage_kept (d : jsval) (st : WorkflowState) (n : num) :
  n ≠ currentStage st →
  prop (stageData (after (handleStageDataChange d) st)) (to_string n)
  = prop (stageData st) (to_string n).
Proof.
  intros Hn. rewrite handleStageDataChange_state. simpl. unfold prop.
  rewrite lookup_insert_ne; [done|].
  intros Heq. apply Hn. symmetry. by apply to_string_inj.
Qed.

Lemma payload_of_other_stage_kept_witness :
  prop (stageData (after (handleStageDataChange (VBool true)) demo)) (to_string (Int 1))
  = prop (stageData demo) (to_string (Int 1)).
Proof. apply (payload_of_other_stage_kept (VBool true) demo (Int 1)). discriminate. Defined.

(** ** Validation *)

Lemma step_flags_unset (st : WorkflowState) (a : op) :
  Forall (λ k, stageData st !! k = None) validation_flags →
  Forall (λ k, stageData (step st a) !! k = None) validation_flags.
Proof.
  intros Hst. rewrite step_stageData. destruct a as [o| |n|d|o doc]; try done.
  apply Forall_forall. intros k Hk.
  rewrite lookup_insert_ne by (by apply to_string_not_flag).
  by apply (proj1 (Forall_forall _ _) Hst).
Qed.

(** X13: no sequence of operations from a first render ever writes one of
    the three flags that [validateStage] reads, so on every state reached
    [validateStage] fails at the stages 1, 2 and 6 and passes at every other
    stage. *)
Theorem validation_flags_never_written (stage : option string) (ops : list op) :
  Forall (λ k, stageData (steps ops (initialState stage)) !! k = None) validation_flags
  ∧ snd (validateStage (steps ops (initialState stage)))
    = bool_decide (currentStage (steps ops (initialState stage)) ∉ checked_stages).
Proof.
  assert (Forall (λ k, stageData (initialState stage) !! k = None) validation_flags)
    as Hinit by (by repeat constructor).
  revert Hinit. generalize (initialState stage).
  induction ops as [|a ops IH]; intros st Hst.
  - split; [done|]. simpl.
    apply Forall_cons in Hst as [H1 Hst]. apply Forall_cons in Hst as [H2 Hst].
    apply Forall_cons in Hst as [H6 _].
    unfold stage_errors, prop. rewrite H1, H2, H6. simpl.
    unfold checked_stages. destruct (currentStage st) as [|z]; [done|].
    assert (z = 1 ∨ z = 2 ∨ z = 6 ∨ (z ≠ 1 ∧ z ≠ 2 ∧ z ≠ 6)) as Hz by lia.
    destruct Hz as [->|[->|[->|(Hz1 & Hz2 & Hz6)]]]; [reflexivity..|].
    cbn [strict_eq].
    rewrite (bool_decide_false (z = 1)), (bool_decide_false (z = 2)),
      (bool_decide_false (z = 6)) by done.
    simpl. symmetry. apply bool_decide_eq_true.
    rewrite !not_elem_of_cons. split_and!; try congruence. apply not_elem_of_nil.
  - rewrite steps_cons. by apply IH, step_flags_unset.
Qed.

(** ** What is rendered *)

(** X15: a stage view (and a stage name) is rendered exactly when the
    current stage is an integer from 1 to 7, and it is then the entry whose
    id is the current stage; at any other number nothing is shown. *)
Theorem stage_view_rendered_iff_in_range (st : WorkflowState) :
  (is_Some (currentStageEntry st) ↔ in_range (currentStage st))
  ∧ ∀ id name, currentStageEntry st = Some (id, name) → currentStage st = Int id.
Proof.
  unfold currentStageEntry, stages_at.
  destruct (currentStage st) as [|z]; simpl.
  - split; [|done]. split; [by intros [? ?]|done].
  - case_bool_decide as Hz.
    + assert (z = 1 ∨ z = 2 ∨ z = 3 ∨ z = 4 ∨ z = 5 ∨ z = 6 ∨ z = 7 ∨ 8 ≤ z)
        as Hcases by lia.
      destruct_or!; subst; try (split; [split; [intros _; lia|by eexists]|by intros ?? [= <- _]]).
      split; [split; [|lia]|].
      * intros Hsome%lookup_lt_is_Some. simpl in Hsome. lia.
      * intros id name Hsome.
        assert (is_Some (stages !! Z.to_nat (z - 1))) as Hlt%lookup_lt_is_Some by eauto.
        simpl in Hlt. lia.
    + split; [|done]. split; [by intros [? ?]|lia].
Qed.

Lemma stage_view_rendered_iff_in_range_witness :
  currentStageEntry demo = Some (3, "Analysis & Discovery")
  ∧ currentStage demo = Int 3
  ∧ ¬ is_Some (currentStageEntry (initialState (Some "9"))).
Proof.
  destruct (stage_view_rendered_iff_in_range demo) as [_ Hid].
  destruct (stage_view_rendered_iff_in_range (initialState (Some "9"))) as [Hiff _].
  refine (conj eq_refl (conj (Hid 3 "Analysis & Discovery" eq_refl) _)).
  intros Hsome. apply Hiff in Hsome. change (1 ≤ 9 ≤ 7) in Hsome. lia.
Defined.

(** ** A stage that is not a number *)

(** X17: when the current stage is [NaN] (a route segment without a
    leading number), "Previous" does nothing, [handleNext] never moves the
    stage and, when its save resolves, records [NaN] as completed, after
    which the gate accepts a click on [NaN]; no stage view is rendered and
    the URL effect writes the segment ["NaN"]. *)
Theorem nan_stage_is_stuck (st : WorkflowState) :
  currentStage st = NaN →
  after handleBack st = st
  ∧ (∀ o, currentStage (after (handleNext o) st) = NaN)
  ∧ completedStages (after (handleNext Resolved) st) = completedStages st ++ [NaN]
  ∧ clickAllowed (after (handleNext Resolved) st) NaN = true
  ∧ currentStageEntry st = None
  ∧ syncUrl (Some "doc") st = [Navigate "/workflow/doc/NaN" true].
Proof.
  intros Hnan. split_and!.
  - unfold after, handleBack. rewrite Hnan. by destruct st.
  - intros [| |].
    + by rewrite handleNext_resolved_current, Hnan.
    + by destruct (handleNext_unresolved Rejected st) as [-> _].
    + by destruct (handleNext_unresolved Pending st) as [-> _].
  - by rewrite handleNext_resolved_completed, Hnan.
  - unfold clickAllowed. rewrite handleNext_resolved_completed, Hnan.
    apply orb_true_iff. left. apply includes_elem_of, elem_of_app. right.
    by apply list_elem_of_singleton.
  - unfold currentStageEntry. by rewrite Hnan.
  - unfold syncUrl. by rewrite Hnan.
Qed.

Lemma nan_stage_is_stuck_witness :
  currentStage (initialState (Some "abc")) = NaN
  ∧ after handleBack (initialState (Some "abc")) = initialState (Some "abc")
  ∧ clickAllowed (after (handleNext Resolved) (initialState (Some "abc"))) NaN = true.
Proof.
  destruct (nan_stage_is_stuck (initialState (Some "abc")) eq_refl)
    as (Hback & _ & _ & Hgate & _).
  exact (conj eq_refl (conj Hback Hgate)).
Defined.

(** ** The gate on an orderly workflow, and repeated operations *)

Lemma steps_snoc (ops : list op) (a : op) (st : WorkflowState) :
  steps (ops ++ [a]) st = step (steps ops st) a.
Proof. by rewrite steps_app. Qed.

Lemma elem_of_first_stages (k : nat) (z : Z) :
  Int z ∈ first_stages k ↔ 1 ≤ z ≤ Z.of_nat k.
Proof.
  unfold first_stages. rewrite list_elem_of_fmap. split.
  - intros (i & [= ->] & Hi%elem_of_seq). lia.
  - intros Hz. exists (Z.to_nat z). split; [f_equal; lia|].
    apply elem_of_seq. lia.
Qed.

(** X16: when the stages 1 to [k] have been completed once each and in
    order, the gate lets through exactly the stage numbers 1 to [k + 1]. *)
Theorem orderly_gate_range (st : WorkflowState) (k : nat) (z : Z) :
  completedStages st = first_stages k →
  clickAllowed st (Int z) = true ↔ 1 ≤ z ≤ Z.of_nat k + 1.
Proof.
  intros Hk. unfold clickAllowed, len. rewrite Hk, length_first_stages.
  rewrite orb_true_iff, includes_elem_of, elem_of_first_stages. simpl.
  rewrite bool_decide_eq_true. lia.
Qed.

Lemma orderly_gate_range_witness :
  clickAllowed demo (Int 3) = true ∧ ¬ clickAllowed demo (Int 4) = true.
Proof.
  pose proof (orderly_gate_range demo 2 3 eq_refl) as H3.
  pose proof (orderly_gate_range demo 2 4 eq_refl) as H4.
  split; [apply H3; lia|]. intros Hgate. apply H4 in Hgate. lia.
Defined.

(** X18: at a current stage of 7 or more [handleNext] never moves on:
    [n] completions in a row leave the current stage where it is and append
    [n] copies of it to [completedStages]. *)
Theorem completing_last_stage_repeats (n : nat) (st : WorkflowState) (z : Z) :
  currentStage st = Int z →
  7 ≤ z →
  currentStage (steps (replicate n (Next Resolved)) st) = Int z
  ∧ completedStages (steps (replicate n (Next Resolved)) st)
    = completedStages st ++ replicate n (Int z).
Proof.
  intros Hcur Hz. induction n as [|n [IHcur IHdone]].
  - simpl. by rewrite app_nil_r.
  - rewrite !replicate_S_end, steps_snoc, step_eq.
    rewrite handleNext_resolved_current, handleNext_resolved_completed.
    rewrite IHcur, IHdone, lt_Int, bool_decide_false by lia.
    split; [done|]. by rewrite app_assoc.
Qed.

Lemma completing_last_stage_repeats_witness :
  currentStage (steps (replicate 2 (Next Resolved)) six_done) = Int 7
  ∧ completedStages (steps (replicate 2 (Next Resolved)) six_done)
    = completedStages six_done ++ [Int 7; Int 7].
Proof. apply (completing_last_stage_repeats 2 six_done 7); [reflexivity|lia]. Defined.

(** X19: from a current stage between 1 and [2^53], [n] uses of
    [handleBack] lead to stage [max (z - n) 1]: it steps down one at a time
    and never goes below stage 1; [completedStages] and the payloads are as
    before. *)
Theorem going_back_stops_at_first_stage (n : nat) (st : WorkflowState) (z : Z) :
  currentStage st = Int z →
  1 ≤ z ≤ safe_bound →
  currentStage (steps (replicate n Previous) st) = Int (Z.max (z - Z.of_nat n) 1)
  ∧ completedStages (steps (replicate n Previous) st) = completedStages st
  ∧ stageData (steps (replicate n Previous) st) = stageData st.
Proof.
  intros Hcur [Hz _]. induction n as [|n (IHcur & IHdone & IHdata)].
  - simpl. split; [|done]. rewrite Hcur. f_equal. lia.
  - rewrite replicate_S_end, steps_snoc, step_eq.
    destruct (handleBack_frame (steps (replicate n Previous) st)) as [-> ->].
    rewrite handleBack_current, IHcur. unfold gt. rewrite lt_Int.
    split; [|done]. case_bool_decide; simpl; f_equal; lia.
Qed.

Lemma going_back_stops_at_first_stage_witness :
  currentStage (steps (replicate 5 Previous) demo) = Int (Z.max (3 - 5) 1)
  ∧ completedStages (steps (replicate 5 Previous) demo) = completedStages demo
  ∧ stageData (steps (replicate 5 Previous) demo) = stageData demo.
Proof.
  apply (going_back_stops_at_first_stage 5 demo 3); [reflexivity|].
  unfold safe_bound. lia.
Defined.
